(** * zoku: scripts/migrate-mcp-to-services.py

    A shallow embedding of the registration generator and the properties
    its specification states about it.

    Python values are modelled as the script uses them:
    - [str] as [string] (all text of the script is ASCII, where Python's
      code-point order and the byte order of [String.compare] agree);
    - the [dict] literal [TOOL_MAPPINGS] as an insertion-ordered association
      list built by [dict_setitem], so that a repeated key overwrites the
      value in place, as a Python dict display does;
    - [sorted] as a stable insertion sort driven by Python's [<] on tuples;
    - the module global and [sys.stdout] as an explicit state threaded
      through a small state monad [Py]; every [print] call appends one
      chunk (its argument followed by a newline) to [stdout]. *)

From Stdlib Require Import List String Ascii Bool Arith NArith Lia.
From Stdlib Require Import Permutation Sorted DecimalString DecimalNat.
Import ListNotations.
Open Scope string_scope.

(** ** Python strings *)

Module PyStr.

(** The character written by the escape [\n]. *)
Definition nl : string := String "010"%char EmptyString.

(** [sep.join(items)]: the first item, then separator and item for each
    further one, accumulated from the left. *)
Fixpoint join_from (sep acc : string) (rest : list string) : string :=
  match rest with
  | [] => acc
  | x :: rest' => join_from sep (acc ++ sep ++ x) rest'
  end.

Definition join (sep : string) (items : list string) : string :=
  match items with
  | [] => EmptyString
  | x :: rest => join_from sep x rest
  end.

(** [str(n)] for a non-negative [int]. *)
Definition str_of_int (n : nat) : string :=
  NilEmpty.string_of_uint (Nat.to_uint n).

(** [s1 < s2] on [str]. *)
Definition str_lt (s1 s2 : string) : bool := String.ltb s1 s2.

(** [l1 < l2] on lists of [str]: the first differing position decides,
    a proper prefix is smaller. *)
Fixpoint list_lt (l1 l2 : list string) : bool :=
  match l1, l2 with
  | [], [] => false
  | [], _ :: _ => true
  | _ :: _, [] => false
  | x :: l1', y :: l2' =>
      if String.eqb x y then list_lt l1' l2' else str_lt x y
  end.

End PyStr.
Import PyStr.

(** ** The mapping table *)

(** The value of one entry: [(service, method, [argument, ...])]. *)
Definition mapping : Type := string * string * list string.

(** One [(key, value)] pair of [dict.items()]. *)
Definition item : Type := string * mapping.

(** A [dict] from tool name to mapping, in insertion order. *)
Definition dict : Type := list item.

(** [d[k] = v]: an existing key keeps its position and gets the new value,
    a new key goes to the end. *)
Fixpoint dict_setitem (k : string) (v : mapping) (d : dict) : dict :=
  match d with
  | [] => [(k, v)]
  | (k', v') :: rest =>
      if String.eqb k' k then (k', v) :: rest
      else (k', v') :: dict_setitem k v rest
  end.

(** A dict display [{k1: v1, k2: v2, ...}]: the pairs are stored from left
    to right. *)
Definition dict_display (entries : list item) : dict :=
  fold_left (fun d e => dict_setitem (fst e) (snd e) d) entries [].

Definition items (d : dict) : list item := d.

Definition len (d : dict) : nat := List.length d.

Definition keys (d : dict) : list string := map fst d.

(** [d.get(k)]. *)
Definition dict_get (d : dict) (k : string) : option mapping :=
  option_map snd (find (fun e => String.eqb (fst e) k) d).

Definition TOOL_MAPPINGS : dict := dict_display
  [ (* Entanglement tools *)
    ("list_entanglements", ("entanglements", "list", ["args"]));
    ("get_entanglement", ("entanglements", "get",
       ["args.id"; "args.include_children_qupts"; "args.detailed ? 50 : 20"]));
    ("get_child_entanglements", ("entanglements", "getChildren",
       ["args.parent_id"; "args.recursive"]));
    ("create_entanglement", ("entanglements", "create", ["args"]));
    ("update_entanglement", ("entanglements", "update", ["args.id"; "args"]));
    ("move_entanglement", ("entanglements", "move",
       ["args.id"; "args.new_parent_id"]));
    ("delete_entanglement", ("entanglements", "delete",
       ["args.id"; "args.confirm"]));
    ("get_matrix", ("entanglements", "getMatrix", ["args.entanglement_id"]));
    ("entangle", ("entanglements", "assignToMatrix",
       ["args.entanglement_id"; "args"]));
    ("disentangle", ("entanglements", "removeFromMatrix",
       ["args.entanglement_id"; "args.zoku_id"; "args.role"]));
    ("get_attributes", ("entanglements", "getAttributes",
       ["args.entanglement_id"]));
    ("list_sources", ("entanglements", "listSources",
       ["args.entanglement_id"]));
    (* Zoku tools *)
    ("list_zoku", ("zoku", "list", ["args"]));
    ("create_zoku", ("zoku", "create", ["args"]));
    ("get_entangled", ("zoku", "get", ["args.id"]));
    (* Qupt tools *)
    ("list_qupts", ("qupts", "list", ["args"]));
    ("create_qupt", ("qupts", "create", ["args"]));
    (* Jewel tools *)
    ("add_jewel", ("jewels", "create", ["args"]));
    ("list_jewels", ("jewels", "list", ["args"]));
    ("get_jewel", ("jewels", "get", ["args.id"]));
    ("update_jewel", ("jewels", "update", ["args.id"; "args"]));
    ("delete_jewel", ("jewels", "delete", ["args.id"]));
    ("get_jewel_usage", ("jewels", "getUsage", ["args.id"]));
    (* Source tools *)
    ("add_source", ("sources", "create", ["args.entanglement_id"; "args"]));
    ("sync_source", ("sources", "sync", ["args.source_id"]));
    ("remove_source", ("sources", "delete", ["args.source_id"]));
    ("toggle_source", ("sources", "update",
       ["args.source_id"; "{ enabled: args.enabled }"])) ].

(** ** Tuple order and [sorted] *)

(** [v1 < v2] on the value tuples. *)
Definition mapping_lt (v1 v2 : mapping) : bool :=
  let '(s1, m1, a1) := v1 in
  let '(s2, m2, a2) := v2 in
  if String.eqb s1 s2 then
    if String.eqb m1 m2 then list_lt a1 a2 else str_lt m1 m2
  else str_lt s1 s2.

(** [e1 < e2] on the [(key, value)] tuples: the key decides unless both
    keys are equal. *)
Definition item_lt (e1 e2 : item) : bool :=
  if String.eqb (fst e1) (fst e2) then mapping_lt (snd e1) (snd e2)
  else str_lt (fst e1) (fst e2).

(** Insertion of [x] behind every element that is not greater than it:
    the step of the stable insertion sort Python runs on short lists. *)
Fixpoint insort (x : item) (l : list item) : list item :=
  match l with
  | [] => [x]
  | y :: l' => if item_lt x y then x :: y :: l' else y :: insort x l'
  end.

Definition sorted (l : list item) : list item :=
  fold_left (fun acc x => insort x acc) l [].

(** ** Process state and the [Py] monad *)

Record state : Type := mkState {
  g_TOOL_MAPPINGS : dict;   (* the module global *)
  stdout : list string      (* what each print call wrote, oldest first *)
}.

Definition Py (A : Type) : Type := state -> A * state.

Definition ret {A} (a : A) : Py A := fun st => (a, st).

Definition bind {A B} (m : Py A) (k : A -> Py B) : Py B :=
  fun st => let (a, st') := m st in k a st'.

Declare Scope py_scope.
Delimit Scope py_scope with py.
Notation "x <- m ;; k" := (bind m (fun x => k))
  (at level 61, m at next level, right associativity) : py_scope.
Notation "m ;; k" := (bind m (fun _ => k))
  (at level 61, right associativity) : py_scope.
Open Scope py_scope.

Definition eval {A} (m : Py A) (st : state) : A := fst (m st).
Definition exec {A} (m : Py A) (st : state) : state := snd (m st).

(** Reading the global name [TOOL_MAPPINGS]. *)
Definition load_TOOL_MAPPINGS : Py dict :=
  fun st => (g_TOOL_MAPPINGS st, st).

(** [print(s)]: writes [s] and a newline. *)
Definition print (s : string) : Py unit :=
  fun st => (tt, mkState (g_TOOL_MAPPINGS st) (stdout st ++ [s ++ nl])).

(** [for x in l: body(x)]. *)
Fixpoint for_each {A} (l : list A) (body : A -> Py unit) : Py unit :=
  match l with
  | [] => ret tt
  | x :: l' => body x ;; for_each l' body
  end.

(** The bytes on standard output. *)
Definition stdout_text (st : state) : string :=
  fold_right append EmptyString (stdout st).

(** ** The renderer and the emitter *)

Definition generate_tool_impl
    (tool_name service_name method_name : string)
    (method_args : list string) : Py string :=
  let args_str := join ", " method_args in
  ret ("  server.registerTool(" ++ nl ++
       "    '" ++ tool_name ++ "'," ++ nl ++
       "    {" ++ nl ++
       "      description: schemas." ++ tool_name ++ ".description," ++ nl ++
       "      inputSchema: schemas." ++ tool_name ++ nl ++
       "    }," ++ nl ++
       "    async (args, extra) => {" ++ nl ++
       "      return mcpToolWrapper('" ++ tool_name ++
         "', logger, extra.sessionId, async () => {" ++ nl ++
       "        const result = await services." ++ service_name ++ "." ++
         method_name ++ "(" ++ args_str ++ ");" ++ nl ++
       "        return result;" ++ nl ++
       "      });" ++ nl ++
       "    }" ++ nl ++
       "  );" ++ nl).

Definition main : Py unit :=
  print ("// Generated MCP tool registrations using services" ++ nl) ;;
  table <- load_TOOL_MAPPINGS ;;
  for_each (sorted (items table))
    (fun '(tool_name, (service, method, args)) =>
       code <- generate_tool_impl tool_name service method args ;;
       print code) ;;
  table' <- load_TOOL_MAPPINGS ;;
  print (nl ++ "// Total tools migrated: " ++ str_of_int (len table')).

(** The state a fresh interpreter runs [main] in. *)
Definition initial_state : state := mkState TOOL_MAPPINGS [].

(** The assignment [TOOL_MAPPINGS = {...}] at module level. *)
Definition store_TOOL_MAPPINGS (d : dict) : Py unit :=
  fun st => (tt, mkState d (stdout st)).

(** Executing the file with [__name__] bound to [name]: the table is
    assigned, the two [def]s bind their names, and the guard at the end
    calls [main] when the file is run as a script. *)
Definition module_body (name : string) : Py unit :=
  store_TOOL_MAPPINGS TOOL_MAPPINGS ;;
  if String.eqb name "__main__" then main else ret tt.

(** ** Vocabulary of the statements *)

(** Text [p] occurs in [s]. *)
Definition Occurs (p s : string) : Prop := exists a b, s = a ++ p ++ b.

(** The decision procedure for [Occurs]. *)
Fixpoint contains (p s : string) : bool :=
  prefix p s ||
  match s with
  | EmptyString => false
  | String _ s' => contains p s'
  end.

(** Number of positions of [s] at which [p] starts (overlaps counted). *)
Fixpoint occurrences (p s : string) : nat :=
  (if prefix p s then 1 else 0) +
  match s with
  | EmptyString => 0
  | String _ s' => occurrences p s'
  end.

(** The argument list as the specification words it: the expressions in
    declared order, with a comma and a space between neighbours. *)
Fixpoint joined_arguments (exprs : list string) : string :=
  match exprs with
  | [] => EmptyString
  | [e] => e
  | e :: rest => e ++ ", " ++ joined_arguments rest
  end.

(** Strictly ascending tool names. *)
Definition name_lt (e1 e2 : item) : Prop := str_lt (fst e1) (fst e2) = true.

(** The value a dict display ends up holding for [k]: the one of the last
    pair declared with that key. *)
Fixpoint last_declared (k : string) (entries : list item) : option mapping :=
  match entries with
  | [] => None
  | e :: rest =>
      match last_declared k rest with
      | Some v => Some v
      | None => if String.eqb (fst e) k then Some (snd e) else None
      end
  end.

(** The block the renderer returns for one pair of [items]. *)
Definition rendered (e : item) : string :=
  let '(tool_name, (service, method, args)) := e in
  eval (generate_tool_impl tool_name service method args) initial_state.

Definition header_line : string :=
  "// Generated MCP tool registrations using services".

Definition trailer_line (n : nat) : string :=
  "// Total tools migrated: " ++ str_of_int n.

(** [int(s)] on a string of decimal digits. *)
Definition int_of_str (s : string) : option nat :=
  option_map Nat.of_uint (NilEmpty.uint_of_string s).

(** Number of written chunks that open a registration of [name]. *)
Definition registrations_of (name : string) (out : list string) : nat :=
  List.length
    (filter (contains ("server.registerTool(" ++ nl ++ "    '" ++ name ++ "',"))
            out).

(** The call text of an entry: [service.method(arguments)]. *)
Definition service_call (e : item) : string :=
  let '(_, (service, method, args)) := e in
  service ++ "." ++ method ++ "(" ++ joined_arguments args ++ ")".

(** [e1 <= e2] on the [(key, value)] tuples, as [sorted] sees it: [e2] is
    not smaller than [e1]. *)
Definition item_le (e1 e2 : item) : Prop := item_lt e2 e1 = false.

(** Line breaks inside the strings of one entry, counted as often as the
    template writes the string. *)
Definition entry_newlines (e : item) : nat :=
  let '(tool_name, (service, method, args)) := e in
  4 * occurrences nl tool_name + occurrences nl service +
  occurrences nl method + occurrences nl (join ", " args).

(** The layout of the output as the specification words it: a single
    header line, every block followed by one blank line, and the line
    with the count. *)
Definition layout_as_claimed
    (header : string) (blocks : list string) (trailer : string) : string :=
  header ++ nl ++
  fold_right append EmptyString (map (fun b => b ++ nl) blocks) ++
  trailer ++ nl.

(** * Properties *)

(** ** Strings *)

Section StringFacts.

Lemma append_nil_r (s : string) : s ++ EmptyString = s.
Proof. induction s as [|c s IH]; simpl; [reflexivity | now rewrite IH]. Qed.

Lemma append_assoc (s1 s2 s3 : string) : (s1 ++ s2) ++ s3 = s1 ++ s2 ++ s3.
Proof. induction s1 as [|c s1 IH]; simpl; [reflexivity | now rewrite IH]. Qed.

Lemma length_append (s1 s2 : string) :
  String.length (s1 ++ s2) = String.length s1 + String.length s2.
Proof. induction s1 as [|c s1 IH]; simpl; [reflexivity | now rewrite IH]. Qed.

Lemma prefix_iff (p s : string) : prefix p s = true <-> exists b, s = p ++ b.
Proof.
  revert s; induction p as [|c p IH]; intros s.
  - split; [intros _; now exists s | now destruct s].
  - destruct s as [|d s]; simpl.
    + split; [discriminate | intros [b Hb]; discriminate].
    + destruct (ascii_dec c d) as [->|Hcd].
      * rewrite IH. split; intros [b Hb]; exists b; congruence.
      * split; [discriminate | intros [b Hb]; congruence].
Qed.

Lemma contains_iff (p s : string) : contains p s = true <-> Occurs p s.
Proof.
  unfold Occurs. induction s as [|c s IH].
  - cbn [contains]. rewrite orb_false_r, prefix_iff. split.
    + intros [b Hb]. now exists EmptyString, b.
    + intros [a [b Hab]]. destruct a; [now exists b | discriminate].
  - cbn [contains]. rewrite orb_true_iff, IH, prefix_iff. split.
    + intros [[b Hb] | [a [b Hab]]].
      * now exists EmptyString, b.
      * exists (String c a), b. simpl. now rewrite Hab.
    + intros [a [b Hab]]. destruct a as [|c' a].
      * left. now exists b.
      * right. exists a, b. simpl in Hab. congruence.
Qed.

Lemma occurrences_pos (p s : string) :
  0 < occurrences p s <-> Occurs p s.
Proof.
  rewrite <- contains_iff. induction s as [|c s IH]; cbn [occurrences contains].
  - destruct (prefix p EmptyString); simpl; split; (lia || congruence).
  - destruct (prefix p (String c s)); simpl.
    + split; [reflexivity | lia].
    + rewrite <- IH. reflexivity.
Qed.

Lemma join_from_spec (sep acc : string) (rest : list string) :
  join_from sep acc rest =
  acc ++ fold_right (fun x r => sep ++ x ++ r) EmptyString rest.
Proof.
  revert acc; induction rest as [|x rest IH]; intros acc; simpl.
  - now rewrite append_nil_r.
  - now rewrite IH, !append_assoc.
Qed.

Lemma joined_arguments_cons (e : string) (rest : list string) :
  joined_arguments (e :: rest) =
  e ++ fold_right (fun x r => ", " ++ x ++ r) EmptyString rest.
Proof.
  revert e; induction rest as [|y rest IH]; intros e.
  - simpl. now rewrite append_nil_r.
  - change (joined_arguments (e :: y :: rest))
      with (e ++ ", " ++ joined_arguments (y :: rest)).
    now rewrite IH.
Qed.

(** Python's [', '.join] computes the argument list of the specification. *)
Lemma join_joined_arguments (exprs : list string) :
  join ", " exprs = joined_arguments exprs.
Proof.
  destruct exprs as [|e rest]; [reflexivity|].
  unfold join. now rewrite join_from_spec, joined_arguments_cons.
Qed.

Lemma joined_arguments_concat (exprs : list string) :
  joined_arguments exprs = String.concat ", " exprs.
Proof.
  induction exprs as [|e [|y rest] IH]; try reflexivity.
  change (e ++ ", " ++ joined_arguments (y :: rest) =
          e ++ ", " ++ String.concat ", " (y :: rest)).
  now rewrite IH.
Qed.

End StringFacts.

(** ** The renderer *)

(** Brings both sides of an equation between concatenations to the same
    right-nested form. *)
Ltac str_norm :=
  unfold nl; cbn [append];
  repeat (rewrite append_assoc; cbn [append]).

Ltac occurs_at a b :=
  exists a, b; unfold eval, generate_tool_impl, ret; cbn [fst];
  rewrite ?join_joined_arguments; str_norm; reflexivity.

Section Renderer.

Variables tool_name service_name method_name : string.
Variable method_args : list string.

Local Abbreviation block st :=
  (eval (generate_tool_impl tool_name service_name method_name method_args) st).

Lemma generate_tool_impl_run (st : state) :
  generate_tool_impl tool_name service_name method_name method_args st =
  (block st, st).
Proof. reflexivity. Qed.

Lemma block_state_independent (st st' : state) : block st = block st'.
Proof. reflexivity. Qed.

Lemma block_service_call (st : state) :
  Occurs ("services." ++ service_name ++ "." ++ method_name ++ "(" ++
          joined_arguments method_args ++ ")") (block st).
Proof.
  occurs_at
    ("  server.registerTool(" ++ nl ++
     "    '" ++ tool_name ++ "'," ++ nl ++
     "    {" ++ nl ++
     "      description: schemas." ++ tool_name ++ ".description," ++ nl ++
     "      inputSchema: schemas." ++ tool_name ++ nl ++
     "    }," ++ nl ++
     "    async (args, extra) => {" ++ nl ++
     "      return mcpToolWrapper('" ++ tool_name ++
       "', logger, extra.sessionId, async () => {" ++ nl ++
     "        const result = await ")
    (";" ++ nl ++
     "        return result;" ++ nl ++
     "      });" ++ nl ++
     "    }" ++ nl ++
     "  );" ++ nl).
Qed.

Lemma block_tool_literal (st : state) :
  Occurs ("server.registerTool(" ++ nl ++ "    '" ++ tool_name ++ "',")
         (block st).
Proof.
  occurs_at "  "
    (nl ++
     "    {" ++ nl ++
     "      description: schemas." ++ tool_name ++ ".description," ++ nl ++
     "      inputSchema: schemas." ++ tool_name ++ nl ++
     "    }," ++ nl ++
     "    async (args, extra) => {" ++ nl ++
     "      return mcpToolWrapper('" ++ tool_name ++
       "', logger, extra.sessionId, async () => {" ++ nl ++
     "        const result = await services." ++ service_name ++ "." ++
       method_name ++ "(" ++ joined_arguments method_args ++ ");" ++ nl ++
     "        return result;" ++ nl ++
     "      });" ++ nl ++
     "    }" ++ nl ++
     "  );" ++ nl).
Qed.

Lemma block_schema_reference (st : state) :
  Occurs ("description: schemas." ++ tool_name ++ ".description," ++ nl ++
          "      inputSchema: schemas." ++ tool_name ++ nl) (block st).
Proof.
  occurs_at
    ("  server.registerTool(" ++ nl ++
     "    '" ++ tool_name ++ "'," ++ nl ++
     "    {" ++ nl ++
     "      ")
    ("    }," ++ nl ++
     "    async (args, extra) => {" ++ nl ++
     "      return mcpToolWrapper('" ++ tool_name ++
       "', logger, extra.sessionId, async () => {" ++ nl ++
     "        const result = await services." ++ service_name ++ "." ++
       method_name ++ "(" ++ joined_arguments method_args ++ ");" ++ nl ++
     "        return result;" ++ nl ++
     "      });" ++ nl ++
     "    }" ++ nl ++
     "  );" ++ nl).
Qed.

Lemma block_wrapper_call (st : state) :
  Occurs ("mcpToolWrapper('" ++ tool_name ++
          "', logger, extra.sessionId, async () => {") (block st).
Proof.
  occurs_at
    ("  server.registerTool(" ++ nl ++
     "    '" ++ tool_name ++ "'," ++ nl ++
     "    {" ++ nl ++
     "      description: schemas." ++ tool_name ++ ".description," ++ nl ++
     "      inputSchema: schemas." ++ tool_name ++ nl ++
     "    }," ++ nl ++
     "    async (args, extra) => {" ++ nl ++
     "      return ")
    (nl ++
     "        const result = await services." ++ service_name ++ "." ++
       method_name ++ "(" ++ joined_arguments method_args ++ ");" ++ nl ++
     "        return result;" ++ nl ++
     "      });" ++ nl ++
     "    }" ++ nl ++
     "  );" ++ nl).
Qed.

End Renderer.

(** ** The order on tool names *)

Section NameOrder.

Lemma ascii_compare_refl (c : ascii) : Ascii.compare c c = Eq.
Proof. unfold Ascii.compare. apply N.compare_refl. Qed.

Lemma ascii_compare_lt_trans (a b c : ascii) :
  Ascii.compare a b = Lt -> Ascii.compare b c = Lt -> Ascii.compare a c = Lt.
Proof.
  unfold Ascii.compare. rewrite !N.compare_lt_iff. apply N.lt_trans.
Qed.

Lemma string_compare_refl (s : string) : String.compare s s = Eq.
Proof.
  induction s as [|c s IH]; simpl; [reflexivity|].
  now rewrite ascii_compare_refl.
Qed.

Lemma string_compare_lt_trans (s1 s2 s3 : string) :
  String.compare s1 s2 = Lt -> String.compare s2 s3 = Lt ->
  String.compare s1 s3 = Lt.
Proof.
  revert s2 s3; induction s1 as [|a s1 IH]; intros [|b s2] [|c s3]; simpl;
    try congruence.
  destruct (Ascii.compare a b) eqn:Hab; try discriminate;
    destruct (Ascii.compare b c) eqn:Hbc; try discriminate; intros H12 H23.
  - apply Ascii.compare_eq_iff in Hab, Hbc. subst.
    rewrite ascii_compare_refl. eauto.
  - apply Ascii.compare_eq_iff in Hab. subst. now rewrite Hbc.
  - apply Ascii.compare_eq_iff in Hbc. subst. now rewrite Hab.
  - now rewrite (ascii_compare_lt_trans _ _ _ Hab Hbc).
Qed.

Lemma str_lt_irrefl (s : string) : str_lt s s = false.
Proof. unfold str_lt, String.ltb. now rewrite string_compare_refl. Qed.

Lemma str_lt_trans (s1 s2 s3 : string) :
  str_lt s1 s2 = true -> str_lt s2 s3 = true -> str_lt s1 s3 = true.
Proof.
  unfold str_lt, String.ltb.
  destruct (String.compare s1 s2) eqn:H12; try discriminate.
  destruct (String.compare s2 s3) eqn:H23; try discriminate.
  now rewrite (string_compare_lt_trans _ _ _ H12 H23).
Qed.

Lemma str_lt_asym (s1 s2 : string) :
  str_lt s1 s2 = true -> str_lt s2 s1 = false.
Proof.
  unfold str_lt, String.ltb. rewrite (String.compare_antisym s2 s1).
  now destruct (String.compare s1 s2).
Qed.

Lemma str_lt_total (s1 s2 : string) :
  s1 <> s2 -> str_lt s1 s2 = false -> str_lt s2 s1 = true.
Proof.
  unfold str_lt, String.ltb. rewrite (String.compare_antisym s2 s1).
  destruct (String.compare s1 s2) eqn:H; simpl; try congruence.
  intros Hne _. now apply String.compare_eq_iff in H.
Qed.

End NameOrder.

(** ** [sorted] *)

Section Sorted.

Lemma item_lt_names (x y : item) :
  fst x <> fst y -> item_lt x y = str_lt (fst x) (fst y).
Proof.
  intros Hne. unfold item_lt.
  now destruct (String.eqb_spec (fst x) (fst y)).
Qed.

Lemma insort_perm (x : item) (l : list item) :
  Permutation (insort x l) (x :: l).
Proof.
  induction l as [|y l IH]; simpl; [reflexivity|].
  destruct (item_lt x y); [reflexivity|].
  rewrite IH. apply perm_swap.
Qed.

Lemma sorted_from_perm (l acc : list item) :
  Permutation (fold_left (fun a x => insort x a) l acc) (l ++ acc).
Proof.
  revert acc; induction l as [|x l IH]; intros acc; simpl; [reflexivity|].
  rewrite IH, insort_perm. now rewrite Permutation_middle.
Qed.

Lemma sorted_perm (l : list item) : Permutation (sorted l) l.
Proof. unfold sorted. now rewrite sorted_from_perm, app_nil_r. Qed.

Lemma sorted_length (l : list item) : List.length (sorted l) = List.length l.
Proof. apply Permutation_length, sorted_perm. Qed.

Lemma insort_strongly_sorted (x : item) (l : list item) :
  ~ In (fst x) (map fst l) ->
  StronglySorted name_lt l -> StronglySorted name_lt (insort x l).
Proof.
  induction l as [|y l IH]; intros Hx Hs; simpl.
  - repeat constructor.
  - assert (Hne : fst x <> fst y) by (intros E; apply Hx; left; congruence).
    assert (Hx' : ~ In (fst x) (map fst l)) by (intros E; apply Hx; now right).
    apply StronglySorted_inv in Hs as [Hs Hy].
    rewrite (item_lt_names _ _ Hne).
    destruct (str_lt (fst x) (fst y)) eqn:Hlt.
    + constructor; [now constructor|].
      constructor; [exact Hlt|].
      eapply Forall_impl; [|exact Hy].
      intros z Hz. unfold name_lt in *. eapply str_lt_trans; eauto.
    + constructor; [now apply IH|].
      rewrite (insort_perm x l). constructor; [|exact Hy].
      unfold name_lt. now apply str_lt_total.
Qed.

Lemma sorted_from_strongly_sorted (l acc : list item) :
  NoDup (map fst (l ++ acc)) -> StronglySorted name_lt acc ->
  StronglySorted name_lt (fold_left (fun a x => insort x a) l acc).
Proof.
  revert acc; induction l as [|x l IH]; intros acc Hnd Hs; simpl; [exact Hs|].
  simpl in Hnd. apply NoDup_cons_iff in Hnd as [Hx Hnd].
  rewrite map_app, in_app_iff in Hx.
  apply IH.
  - eapply Permutation_NoDup with (l := map fst (x :: l ++ acc)).
    + apply Permutation_map. rewrite insort_perm. apply Permutation_middle.
    + simpl. constructor; [|exact Hnd]. rewrite map_app, in_app_iff. tauto.
  - apply insort_strongly_sorted; tauto.
Qed.

(** On a list of pairwise distinct names, [sorted] yields strictly
    ascending names. *)
Lemma sorted_strongly_sorted (l : list item) :
  NoDup (map fst l) -> StronglySorted name_lt (sorted l).
Proof.
  intros Hnd. apply sorted_from_strongly_sorted; [|constructor].
  now rewrite app_nil_r.
Qed.

(** Two strictly ascending arrangements of the same entries coincide. *)
Lemma strongly_sorted_perm_eq (l1 l2 : list item) :
  StronglySorted name_lt l1 -> StronglySorted name_lt l2 ->
  Permutation l1 l2 -> l1 = l2.
Proof.
  revert l2; induction l1 as [|x l1 IH]; intros l2 H1 H2 Hp.
  - now apply Permutation_nil in Hp.
  - destruct l2 as [|y l2].
    + symmetry in Hp. now apply Permutation_nil in Hp.
    + apply StronglySorted_inv in H1 as [H1 Hx].
      apply StronglySorted_inv in H2 as [H2 Hy].
      assert (Exy : x = y).
      { assert (Hin1 : In x (y :: l2))
          by (eapply Permutation_in; [exact Hp | now left]).
        assert (Hin2 : In y (x :: l1))
          by (eapply Permutation_in; [symmetry; exact Hp | now left]).
        destruct Hin1 as [E|Hin1]; [now symmetry|].
        destruct Hin2 as [E|Hin2]; [exact E|].
        rewrite Forall_forall in Hx, Hy.
        specialize (Hx _ Hin2). specialize (Hy _ Hin1).
        unfold name_lt in *. apply str_lt_asym in Hx. congruence. }
      subst y. f_equal. apply IH; trivial.
      eapply Permutation_cons_inv; exact Hp.
Qed.

Lemma sorted_perm_invariant (l1 l2 : list item) :
  NoDup (map fst l1) -> Permutation l1 l2 -> sorted l1 = sorted l2.
Proof.
  intros Hnd Hp.
  assert (Hnd2 : NoDup (map fst l2))
    by (eapply Permutation_NoDup; [apply Permutation_map; exact Hp | exact Hnd]).
  apply strongly_sorted_perm_eq; try now apply sorted_strongly_sorted.
  now rewrite !sorted_perm.
Qed.

End Sorted.

(** ** The dict *)

Section Dict.

Lemma dict_setitem_keys (k : string) (v : mapping) (d : dict) :
  keys (dict_setitem k v d) = if in_dec string_dec k (keys d) then keys d
                              else (keys d ++ [k])%list.
Proof.
  induction d as [|[k' v'] d IH]; simpl; [reflexivity|].
  destruct (String.eqb_spec k' k) as [->|Hne]; simpl.
  - destruct (string_dec k k); [reflexivity | congruence].
  - rewrite IH. destruct (string_dec k' k); [congruence|].
    now destruct (in_dec string_dec k (keys d)).
Qed.

Lemma dict_setitem_NoDup (k : string) (v : mapping) (d : dict) :
  NoDup (keys d) -> NoDup (keys (dict_setitem k v d)).
Proof.
  intros Hnd. rewrite dict_setitem_keys.
  destruct (in_dec string_dec k (keys d)) as [Hin|Hnin]; [exact Hnd|].
  apply NoDup_rev in Hnd. rewrite <- (rev_involutive (keys d ++ [k])%list).
  apply NoDup_rev. rewrite rev_app_distr. simpl. constructor; [|exact Hnd].
  now rewrite <- in_rev.
Qed.

Lemma dict_display_from_NoDup (entries : list item) (d : dict) :
  NoDup (keys d) ->
  NoDup (keys (fold_left (fun d e => dict_setitem (fst e) (snd e) d)
                         entries d)).
Proof.
  revert d; induction entries as [|e entries IH]; intros d Hnd; simpl.
  - exact Hnd.
  - now apply IH, dict_setitem_NoDup.
Qed.

(** Whatever pairs a dict display lists, the resulting dict holds every
    key once. *)
Lemma dict_display_NoDup (entries : list item) :
  NoDup (keys (dict_display entries)).
Proof. apply dict_display_from_NoDup. constructor. Qed.

Lemma dict_get_setitem (k k' : string) (v : mapping) (d : dict) :
  dict_get (dict_setitem k' v d) k =
  if String.eqb k' k then Some v else dict_get d k.
Proof.
  unfold dict_get. induction d as [|[k0 v0] d IH]; simpl.
  - now destruct (String.eqb k' k).
  - destruct (String.eqb_spec k0 k') as [->|Hne]; simpl.
    + now destruct (String.eqb k' k).
    + destruct (String.eqb_spec k0 k) as [->|Hne']; simpl.
      * destruct (String.eqb_spec k' k); [congruence | reflexivity].
      * exact IH.
Qed.

Lemma dict_display_from_get (k : string) (entries : list item) (d : dict) :
  dict_get (fold_left (fun d e => dict_setitem (fst e) (snd e) d) entries d) k
  = match last_declared k entries with
    | Some v => Some v
    | None => dict_get d k
    end.
Proof.
  revert d; induction entries as [|e entries IH]; intros d; simpl.
  - reflexivity.
  - rewrite IH, dict_get_setitem.
    now destruct (last_declared k entries), (String.eqb (fst e) k).
Qed.

Lemma dict_display_get (k : string) (entries : list item) :
  dict_get (dict_display entries) k = last_declared k entries.
Proof.
  unfold dict_display. rewrite dict_display_from_get.
  now destruct (last_declared k entries).
Qed.

Lemma dict_get_In (d : dict) (k : string) (v : mapping) :
  NoDup (keys d) -> (In (k, v) (items d) <-> dict_get d k = Some v).
Proof.
  unfold dict_get, items. induction d as [|[k0 v0] d IH]; intros Hnd; simpl.
  - split; [tauto | discriminate].
  - apply NoDup_cons_iff in Hnd as [Hk0 Hnd]. specialize (IH Hnd).
    destruct (String.eqb_spec k0 k) as [->|Hne]; simpl.
    + split.
      * intros [E|Hin]; [congruence|].
        exfalso. apply Hk0. now apply (in_map fst) in Hin.
      * intros E. left. congruence.
    + rewrite <- IH. split; [intros [E|Hin]; [congruence | exact Hin] | tauto].
Qed.

Lemma dict_display_permutation (l1 l2 : list item) :
  NoDup (map fst l1) -> Permutation l1 l2 ->
  Permutation (items (dict_display l1)) (items (dict_display l2)).
Proof.
  intros Hnd Hp.
  assert (Hid : forall l, NoDup (map fst l) -> forall d,
            (forall k, In k (map fst l) -> ~ In k (keys d)) ->
            fold_left (fun d e => dict_setitem (fst e) (snd e) d) l d
            = (d ++ l)%list).
  { induction l as [|[k v] l IH]; intros Hl d Hd; simpl.
    - now rewrite app_nil_r.
    - simpl in Hl. apply NoDup_cons_iff in Hl as [Hk Hl].
      assert (Hset : dict_setitem k v d = (d ++ [(k, v)])%list).
      { assert (Hkd : ~ In k (keys d)) by (apply Hd; now left).
        clear -Hkd. induction d as [|[k0 v0] d IHd]; simpl; [reflexivity|].
        destruct (String.eqb_spec k0 k) as [->|Hne].
        - exfalso. apply Hkd. now left.
        - rewrite IHd; [reflexivity|]. intros Hin. apply Hkd. now right. }
      rewrite Hset, IH; trivial.
      + now rewrite <- app_assoc.
      + intros k' Hk'. unfold keys. rewrite map_app, in_app_iff. simpl.
        intros [Hin|[E|[]]].
        * apply (Hd k'); [now right | exact Hin].
        * subst. contradiction. }
  unfold dict_display, items.
  rewrite (Hid l1 Hnd []), (Hid l2); simpl; auto.
  eapply Permutation_NoDup; [apply Permutation_map; exact Hp | exact Hnd].
Qed.

End Dict.

(** ** Running the emitter *)

Section Emitter.

Local Abbreviation loop_body :=
  (fun '(tool_name, (service, method, args)) =>
     code <- generate_tool_impl tool_name service method args ;;
     print code).

Lemma loop_body_run (e : item) (st : state) :
  loop_body e st =
  (tt, mkState (g_TOOL_MAPPINGS st) (stdout st ++ [rendered e ++ nl])).
Proof. destruct e as [t [[s m] a]]. reflexivity. Qed.

Lemma for_each_run (l : list item) (st : state) :
  for_each l loop_body st =
  (tt, mkState (g_TOOL_MAPPINGS st)
               (stdout st ++ map (fun e => rendered e ++ nl) l)).
Proof.
  revert st; induction l as [|e l IH]; intros st.
  - simpl. unfold ret. rewrite app_nil_r. now destruct st.
  - cbn [for_each]. unfold bind at 1. rewrite loop_body_run, IH.
    cbn [g_TOOL_MAPPINGS stdout map]. now rewrite <- app_assoc.
Qed.

(** The whole effect of one run: the global is left as it was and the
    header, one chunk per sorted entry and the trailer are appended to
    standard output. *)
Lemma main_run (st : state) :
  main st =
  (tt, mkState (g_TOOL_MAPPINGS st)
         (stdout st ++
          [header_line ++ nl ++ nl] ++
          map (fun e => rendered e ++ nl) (sorted (items (g_TOOL_MAPPINGS st))) ++
          [nl ++ trailer_line (len (g_TOOL_MAPPINGS st)) ++ nl])).
Proof.
  unfold main. unfold bind at 1. cbn [print].
  unfold bind at 1. cbn [load_TOOL_MAPPINGS g_TOOL_MAPPINGS].
  unfold bind at 1. rewrite for_each_run.
  unfold bind, load_TOOL_MAPPINGS, print. cbn [g_TOOL_MAPPINGS stdout].
  unfold header_line, trailer_line.
  rewrite <- !app_assoc, !append_assoc. reflexivity.
Qed.

Lemma main_stdout (d : dict) (out : list string) :
  stdout (exec main (mkState d out)) =
  (out ++ [(header_line ++ nl ++ nl)%string] ++
   map (fun e => (rendered e ++ nl)%string) (sorted (items d)) ++
   [(nl ++ trailer_line (len d) ++ nl)%string])%list.
Proof. unfold exec. now rewrite main_run. Qed.

Lemma main_globals (st : state) :
  g_TOOL_MAPPINGS (exec main st) = g_TOOL_MAPPINGS st.
Proof. unfold exec. now rewrite main_run. Qed.

End Emitter.

Lemma flatten_app (l1 l2 : list string) :
  fold_right append EmptyString (l1 ++ l2) =
  fold_right append EmptyString l1 ++ fold_right append EmptyString l2.
Proof.
  induction l1 as [|s l1 IH]; simpl; [reflexivity|].
  now rewrite IH, append_assoc.
Qed.

Lemma digits_single_line (u : Decimal.uint) :
  contains nl (NilEmpty.string_of_uint u) = false.
Proof. induction u; simpl; auto. Qed.

Lemma str_of_int_roundtrip (n : nat) : int_of_str (str_of_int n) = Some n.
Proof.
  unfold int_of_str, str_of_int. rewrite NilEmpty.usu. simpl.
  now rewrite Unsigned.of_to.
Qed.

(** * The claims *)

(** ** Renderer *)

Ltac in_table := cbv; repeat ((left; reflexivity) || right).

Lemma table_blocks_have_one_call :
  forallb (fun e =>
             Nat.eqb (occurrences (service_call e) (rendered e)) 1 &&
             Nat.eqb (occurrences "await services." (rendered e)) 1)
          (items TOOL_MAPPINGS) = true.
Proof. vm_compute. reflexivity. Qed.

(** C1. Every rendered block holds the call [service.method(arguments)]
    with the arguments joined in declared order, the tool name as a quoted
    literal, the description and input schema looked up under the tool
    name, and the wrapper call given the tool name, the logger and the
    session id; for the entries of [TOOL_MAPPINGS] the call text occurs
    exactly once in the block, which has a single service call. *)
Theorem rendered_block_contents
    (t s m : string) (a : list string) (st : state) :
  let block := eval (generate_tool_impl t s m a) st in
  Occurs ("services." ++ s ++ "." ++ m ++ "(" ++ joined_arguments a ++ ")")
         block /\
  Occurs ("server.registerTool(" ++ nl ++ "    '" ++ t ++ "',") block /\
  Occurs ("description: schemas." ++ t ++ ".description," ++ nl ++
          "      inputSchema: schemas." ++ t ++ nl) block /\
  Occurs ("mcpToolWrapper('" ++ t ++
          "', logger, extra.sessionId, async () => {") block /\
  (In (t, (s, m, a)) (items TOOL_MAPPINGS) ->
   occurrences (s ++ "." ++ m ++ "(" ++ joined_arguments a ++ ")") block = 1 /\
   occurrences "await services." block = 1).
Proof.
  intros block. subst block.
  split; [apply block_service_call|].
  split; [apply block_tool_literal|].
  split; [apply block_schema_reference|].
  split; [apply block_wrapper_call|].
  intros Hin.
  pose proof table_blocks_have_one_call as Hall.
  rewrite forallb_forall in Hall. specialize (Hall _ Hin).
  apply andb_true_iff in Hall as [H1 H2].
  apply Nat.eqb_eq in H1, H2. split; [exact H1 | exact H2].
Qed.

Lemma rendered_block_contents_witness :
  occurrences "zoku.list(args)"
    (eval (generate_tool_impl "list_zoku" "zoku" "list" ["args"])
          initial_state) = 1.
Proof.
  apply (rendered_block_contents "list_zoku" "zoku" "list" ["args"]
           initial_state).
  in_table.
Defined.

(** Exactly-once is a fact about the entries of the table. A record whose
    tool name is itself the text of its call (not a name a tool could bear)
    repeats that text wherever the name is written. *)
Example call_text_repeated_by_tool_name :
  occurrences "a.b()"
    (eval (generate_tool_impl "a.b()" "a" "b" []) initial_state) = 5.
Proof. vm_compute. reflexivity. Qed.

(** C3. The text between the parentheses of the call is exactly the
    argument expressions in declared order joined by a comma and a space,
    whatever the entry; with no argument expressions the call is
    [service.method()]. *)
Theorem argument_list_is_joined (t : string) :
  exists pre post : string,
    (forall s m a st,
        eval (generate_tool_impl t s m a) st =
        pre ++ s ++ "." ++ m ++ "(" ++ joined_arguments a ++ ")" ++ post) /\
    (forall s m st,
        eval (generate_tool_impl t s m []) st =
        pre ++ s ++ "." ++ m ++ "()" ++ post) /\
    (forall a, joined_arguments a = String.concat ", " a).
Proof.
  exists ("  server.registerTool(" ++ nl ++
          "    '" ++ t ++ "'," ++ nl ++
          "    {" ++ nl ++
          "      description: schemas." ++ t ++ ".description," ++ nl ++
          "      inputSchema: schemas." ++ t ++ nl ++
          "    }," ++ nl ++
          "    async (args, extra) => {" ++ nl ++
          "      return mcpToolWrapper('" ++ t ++
            "', logger, extra.sessionId, async () => {" ++ nl ++
          "        const result = await services."),
         (";" ++ nl ++
          "        return result;" ++ nl ++
          "      });" ++ nl ++
          "    }" ++ nl ++
          "  );" ++ nl).
  split; [|split].
  - intros s m a st. unfold eval, generate_tool_impl, ret; cbn [fst].
    rewrite join_joined_arguments. str_norm. reflexivity.
  - intros s m st. unfold eval, generate_tool_impl, ret; cbn [fst join].
    str_norm. reflexivity.
  - apply joined_arguments_concat.
Qed.

(** A record without argument expressions: the call line reads
    [services.health.ping();] and the parentheses of the block pair up. *)
Example empty_argument_list_block :
  contains ("        const result = await services.health.ping();" ++ nl)
    (eval (generate_tool_impl "ping" "health" "ping" []) initial_state) = true /\
  occurrences "("
    (eval (generate_tool_impl "ping" "health" "ping" []) initial_state) =
  occurrences ")"
    (eval (generate_tool_impl "ping" "health" "ping" []) initial_state).
Proof. split; vm_compute; reflexivity. Qed.

(** C7. The two entries the specification works out: [list_zoku] renders
    [zoku.list(args)] and refers to [schemas.list_zoku]; [disentangle]
    renders its three arguments in the declared order. *)
Theorem list_zoku_and_disentangle_blocks (st : state) :
  dict_get TOOL_MAPPINGS "list_zoku" = Some ("zoku", "list", ["args"]) /\
  Occurs "zoku.list(args)"
    (eval (generate_tool_impl "list_zoku" "zoku" "list" ["args"]) st) /\
  Occurs "schemas.list_zoku"
    (eval (generate_tool_impl "list_zoku" "zoku" "list" ["args"]) st) /\
  dict_get TOOL_MAPPINGS "disentangle" =
    Some ("entanglements", "removeFromMatrix",
          ["args.entanglement_id"; "args.zoku_id"; "args.role"]) /\
  Occurs
    "entanglements.removeFromMatrix(args.entanglement_id, args.zoku_id, args.role)"
    (eval (generate_tool_impl "disentangle" "entanglements" "removeFromMatrix"
             ["args.entanglement_id"; "args.zoku_id"; "args.role"]) st).
Proof.
  repeat split; try (vm_compute; reflexivity);
    apply contains_iff; vm_compute; reflexivity.
Qed.

Lemma block_empty_call (t s m : string) (st : state) :
  Occurs (s ++ "." ++ m ++ "();") (eval (generate_tool_impl t s m []) st).
Proof.
  occurs_at
    ("  server.registerTool(" ++ nl ++
     "    '" ++ t ++ "'," ++ nl ++
     "    {" ++ nl ++
     "      description: schemas." ++ t ++ ".description," ++ nl ++
     "      inputSchema: schemas." ++ t ++ nl ++
     "    }," ++ nl ++
     "    async (args, extra) => {" ++ nl ++
     "      return mcpToolWrapper('" ++ t ++
       "', logger, extra.sessionId, async () => {" ++ nl ++
     "        const result = await services.")
    (nl ++
     "        return result;" ++ nl ++
     "      });" ++ nl ++
     "    }" ++ nl ++
     "  );" ++ nl).
Qed.

Lemma block_length (t s m : string) (a : list string) (st : state) :
  String.length (eval (generate_tool_impl t s m a) st) =
  300 + 4 * String.length t + String.length s + String.length m +
  String.length (joined_arguments a).
Proof.
  unfold eval, generate_tool_impl, ret; cbn [fst].
  rewrite join_joined_arguments.
  repeat (rewrite length_append; cbn [String.length nl]).
  lia.
Qed.

(** C8. A call of the renderer returns a block for every record, the one
    with no argument expressions included, and hands the process state
    (the global table and standard output) back as it received it; the
    block does not depend on that state, and its size is that of the
    template plus the sizes of the fields written into it. *)
Theorem generate_tool_impl_total_and_pure
    (t s m : string) (a : list string) (st : state) :
  (exists block,
      generate_tool_impl t s m a st = (block, st) /\ block <> EmptyString /\
      (forall st', eval (generate_tool_impl t s m a) st' = block) /\
      String.length block =
      300 + 4 * String.length t + String.length s + String.length m +
      String.length (joined_arguments a)) /\
  (exists block,
      generate_tool_impl t s m [] st = (block, st) /\
      Occurs (s ++ "." ++ m ++ "();") block).
Proof.
  split.
  - eexists. split; [reflexivity|]. split; [discriminate|].
    split; [reflexivity | exact (block_length t s m a st)].
  - eexists. split; [reflexivity|].
    exact (block_empty_call t s m st).
Qed.

(** ** Emitter *)

Section EmitterFacts.

Lemma dict_display_from_keys (k : string) (entries : list item) (d : dict) :
  In k (keys (fold_left (fun d e => dict_setitem (fst e) (snd e) d) entries d))
  <-> In k (keys d) \/ In k (map fst entries).
Proof.
  revert d; induction entries as [|e entries IH]; intros d; simpl.
  - tauto.
  - rewrite IH, dict_setitem_keys.
    destruct (in_dec string_dec (fst e) (keys d)) as [Hin|Hnin].
    + split; [tauto|]. intros [H|[E|H]]; subst; tauto.
    + rewrite in_app_iff. simpl. tauto.
Qed.

Lemma dict_display_keys (k : string) (entries : list item) :
  In k (keys (dict_display entries)) <-> In k (map fst entries).
Proof. unfold dict_display. rewrite dict_display_from_keys. simpl. tauto. Qed.

Lemma Occurs_trans (p q s : string) : Occurs p q -> Occurs q s -> Occurs p s.
Proof.
  intros [a [b Hq]] [a' [b' Hs]]. exists (a' ++ a), (b ++ b').
  subst. now rewrite !append_assoc.
Qed.

Lemma Occurs_joined_arguments (a1 a2 : list string) (e : string) :
  Occurs e (joined_arguments (a1 ++ e :: a2)).
Proof.
  induction a1 as [|x a1 IH].
  - simpl app. rewrite joined_arguments_cons.
    exists EmptyString, (fold_right (fun x r => ", " ++ x ++ r) EmptyString a2). reflexivity.
  - destruct IH as [a [b Hab]].
    exists (x ++ ", " ++ a), b.
    change ((x :: a1) ++ e :: a2)%list with (x :: (a1 ++ e :: a2))%list.
    destruct (a1 ++ e :: a2)%list as [|y rest] eqn:E.
    + now destruct a1.
    + change (joined_arguments (x :: y :: rest))
        with (x ++ ", " ++ joined_arguments (y :: rest)).
      rewrite Hab. now rewrite !append_assoc.
Qed.

Lemma rendered_shape (e : item) :
  exists body,
    rendered e = "  server.registerTool(" ++ nl ++ body ++ "  );" ++ nl.
Proof.
  destruct e as [t [[s m] a]].
  exists ("    '" ++ t ++ "'," ++ nl ++
          "    {" ++ nl ++
          "      description: schemas." ++ t ++ ".description," ++ nl ++
          "      inputSchema: schemas." ++ t ++ nl ++
          "    }," ++ nl ++
          "    async (args, extra) => {" ++ nl ++
          "      return mcpToolWrapper('" ++ t ++
            "', logger, extra.sessionId, async () => {" ++ nl ++
          "        const result = await services." ++ s ++ "." ++
            m ++ "(" ++ join ", " a ++ ");" ++ nl ++
          "        return result;" ++ nl ++
          "      });" ++ nl ++
          "    }" ++ nl).
  unfold rendered, eval, generate_tool_impl, ret; cbn [fst].
  str_norm. reflexivity.
Qed.

End EmitterFacts.

(** C2. Whatever pairs the table is declared with, the blocks are written
    in strictly ascending order of tool name; and declaring pairwise
    distinct names in another order leaves the output as it is. *)
Theorem blocks_in_ascending_name_order (lit : list item) (out : list string) :
  (exists es,
      stdout (exec main (mkState (dict_display lit) out)) =
      (out ++ [(header_line ++ nl ++ nl)%string] ++
       map (fun e => (rendered e ++ nl)%string) es ++
       [(nl ++ trailer_line (len (dict_display lit)) ++ nl)%string])%list /\
      Permutation es (items (dict_display lit)) /\
      StronglySorted name_lt es) /\
  (forall lit',
      NoDup (map fst lit) -> Permutation lit lit' ->
      stdout (exec main (mkState (dict_display lit') out)) =
      stdout (exec main (mkState (dict_display lit) out))).
Proof.
  split.
  - exists (sorted (items (dict_display lit))). split; [apply main_stdout|].
    split; [apply sorted_perm|].
    apply sorted_strongly_sorted, dict_display_NoDup.
  - intros lit' Hnd Hp. rewrite !main_stdout.
    pose proof (dict_display_permutation lit lit' Hnd Hp) as Hd.
    rewrite (sorted_perm_invariant (items (dict_display lit))
                                   (items (dict_display lit'))).
    + unfold len. unfold items in Hd.
      now rewrite (Permutation_length Hd).
    + apply dict_display_NoDup.
    + exact Hd.
Qed.

Lemma blocks_in_ascending_name_order_witness :
  stdout (exec main (mkState (dict_display
            [("remove_source", ("sources", "delete", ["args.source_id"]));
             ("add_jewel", ("jewels", "create", ["args"]))]) [])) =
  stdout (exec main (mkState (dict_display
            [("add_jewel", ("jewels", "create", ["args"]));
             ("remove_source", ("sources", "delete", ["args.source_id"]))])
            [])).
Proof.
  apply (proj2 (blocks_in_ascending_name_order
    [("add_jewel", ("jewels", "create", ["args"]));
     ("remove_source", ("sources", "delete", ["args.source_id"]))] [])).
  - simpl. repeat constructor; simpl; intuition discriminate.
  - apply perm_swap.
Defined.

(** C4. A run over a table of N entries writes N blocks between header and
    trailer, and the number printed on the trailer line is N. *)
Theorem block_count_and_trailer (d : dict) (out : list string) :
  exists (blocks : list string) (digits : string),
    stdout (exec main (mkState d out)) =
    (out ++ [(header_line ++ nl ++ nl)%string] ++ blocks ++
     [(nl ++ "// Total tools migrated: " ++ digits ++ nl)%string])%list /\
    blocks = map (fun e => rendered e ++ nl) (sorted (items d)) /\
    List.length blocks = len d /\
    int_of_str digits = Some (len d).
Proof.
  exists (map (fun e => rendered e ++ nl) (sorted (items d))),
         (str_of_int (len d)).
  split; [|split; [reflexivity | split]].
  - rewrite main_stdout. unfold trailer_line.
    now rewrite !append_assoc.
  - now rewrite length_map, sorted_length.
  - apply str_of_int_roundtrip.
Qed.

(** The table of the script has 27 entries, and that is the count the
    run reports. *)
Example TOOL_MAPPINGS_count :
  len TOOL_MAPPINGS = 27 /\
  last (stdout (exec main initial_state)) EmptyString =
  nl ++ "// Total tools migrated: 27" ++ nl.
Proof. split; vm_compute; reflexivity. Qed.

(** C5. What a run writes is determined by the table: runs started with
    the same table append the same bytes to standard output, the table is
    left unchanged, and a second run appends the same bytes again. *)
Theorem main_deterministic (st1 st2 : state) :
  g_TOOL_MAPPINGS st1 = g_TOOL_MAPPINGS st2 ->
  exists text : string,
    stdout_text (exec main st1) = stdout_text st1 ++ text /\
    stdout_text (exec main st2) = stdout_text st2 ++ text /\
    g_TOOL_MAPPINGS (exec main st1) = g_TOOL_MAPPINGS st1 /\
    stdout_text (exec main (exec main st1)) = stdout_text st1 ++ text ++ text.
Proof.
  intros Htable.
  exists (stdout_text (exec main (mkState (g_TOOL_MAPPINGS st1) []))).
  assert (Happ : forall st,
            stdout_text (exec main st) =
            stdout_text st ++
            stdout_text (exec main (mkState (g_TOOL_MAPPINGS st) []))).
  { intros [d out]. unfold stdout_text. cbn [g_TOOL_MAPPINGS].
    rewrite !main_stdout. cbn [stdout]. now rewrite flatten_app. }
  split; [apply Happ|].
  split; [rewrite Htable; apply Happ|].
  split; [apply main_globals|].
  rewrite (Happ (exec main st1)), main_globals, (Happ st1).
  now rewrite append_assoc.
Qed.

Lemma main_deterministic_witness :
  exists text : string,
    stdout_text (exec main initial_state) = stdout_text initial_state ++ text /\
    stdout_text (exec main (mkState TOOL_MAPPINGS ["# earlier output"])) =
      stdout_text (mkState TOOL_MAPPINGS ["# earlier output"]) ++ text /\
    g_TOOL_MAPPINGS (exec main initial_state) = g_TOOL_MAPPINGS initial_state /\
    stdout_text (exec main (exec main initial_state)) =
      stdout_text initial_state ++ text ++ text.
Proof.
  apply (main_deterministic initial_state
           (mkState TOOL_MAPPINGS ["# earlier output"])).
  reflexivity.
Defined.

(** ** Duplicate names and unchecked text *)

(** A table declared with the name [dup] twice does not lead to two
    registrations of [dup]: the dict keeps one entry for the name, and the
    run writes one block for it. *)
Lemma duplicate_names_written_once :
  ~ (2 <= registrations_of "dup"
       (stdout (exec main (mkState
          (dict_display [("dup", ("svc", "first", ["args.a"]));
                         ("dup", ("svc", "second", ["args.b"]))]) [])))).
Proof. intros H. vm_compute in H. lia. Qed.

Example duplicate_names_keep_last :
  items (dict_display [("dup", ("svc", "first", ["args.a"]));
                       ("dup", ("svc", "second", ["args.b"]))]) =
  [("dup", ("svc", "second", ["args.b"]))] /\
  registrations_of "dup"
    (stdout (exec main (mkState
       (dict_display [("dup", ("svc", "first", ["args.a"]));
                      ("dup", ("svc", "second", ["args.b"]))]) []))) = 1.
Proof. split; vm_compute; reflexivity. Qed.

(** C6, as the code has it. Nothing is checked, and nothing is rejected:
    a name declared several times is kept once, with the mapping of its
    last declaration, so the run writes one block per declared name; and
    every argument expression, whatever its text, appears in the block
    as it was given. *)
Theorem table_not_validated (lit : list item) (out : list string) :
  (exists es,
      stdout (exec main (mkState (dict_display lit) out)) =
      (out ++ [(header_line ++ nl ++ nl)%string] ++
       map (fun e => (rendered e ++ nl)%string) es ++
       [(nl ++ trailer_line (len (dict_display lit)) ++ nl)%string])%list /\
      NoDup (map fst es) /\
      (forall k, In k (map fst es) <-> In k (map fst lit)) /\
      (forall k v, In (k, v) es <-> last_declared k lit = Some v)) /\
  (forall t s m a1 e a2 st,
      Occurs e (eval (generate_tool_impl t s m (a1 ++ e :: a2)) st)).
Proof.
  split.
  - exists (sorted (items (dict_display lit))). split; [apply main_stdout|].
    pose proof (dict_display_NoDup lit) as Hnd.
    pose proof (sorted_perm (items (dict_display lit))) as Hp.
    split; [|split].
    + eapply Permutation_NoDup; [|exact Hnd].
      symmetry. apply Permutation_map. exact Hp.
    + intros k. rewrite <- (dict_display_keys k lit).
      apply (Permutation_map fst) in Hp. unfold keys, items in *.
      split; apply Permutation_in; [exact Hp | symmetry; exact Hp].
    + intros k v. rewrite <- dict_display_get, <- (dict_get_In _ _ _ Hnd).
      split; apply Permutation_in; [exact Hp | symmetry; exact Hp].
  - intros t s m a1 e a2 st.
    eapply Occurs_trans; [apply Occurs_joined_arguments|].
    eapply Occurs_trans; [|apply block_service_call].
    exists ("services." ++ s ++ "." ++ m ++ "("), ")".
    now rewrite !append_assoc.
Qed.

Lemma rendered_tool_literal (e : item) :
  Occurs ("server.registerTool(" ++ nl ++ "    '" ++ fst e ++ "',")
         (rendered e).
Proof. destruct e as [t [[s m] a]]. apply block_tool_literal. Qed.

(** C10. The table being a dict, a run never writes two blocks for one
    tool name: the names of the entries it renders are pairwise distinct,
    they are the names the table was declared with, and each block
    registers the name of its own entry. *)
Theorem emitted_tool_names_distinct (lit : list item) (out : list string) :
  NoDup (keys (dict_display lit)) /\
  NoDup (map fst (sorted (items (dict_display lit)))) /\
  (forall k, In k (map fst (sorted (items (dict_display lit)))) <->
             In k (map fst lit)) /\
  (forall e, Occurs ("server.registerTool(" ++ nl ++ "    '" ++ fst e ++ "',")
                    (rendered e)) /\
  stdout (exec main (mkState (dict_display lit) out)) =
  (out ++ [(header_line ++ nl ++ nl)%string] ++
   map (fun e => (rendered e ++ nl)%string)
       (sorted (items (dict_display lit))) ++
   [(nl ++ trailer_line (len (dict_display lit)) ++ nl)%string])%list.
Proof.
  pose proof (dict_display_NoDup lit) as Hnd.
  pose proof (Permutation_map fst (sorted_perm (items (dict_display lit))))
    as Hp.
  split; [exact Hnd|].
  split; [eapply Permutation_NoDup; [symmetry; exact Hp | exact Hnd]|].
  split; [|split; [exact rendered_tool_literal | apply main_stdout]].
  intros k. rewrite <- (dict_display_keys k lit). unfold keys, items in *.
  split; apply Permutation_in; [exact Hp | symmetry; exact Hp].
Qed.

(** The table of the script declares 27 pairwise distinct names, so its
    dict holds exactly the declared pairs. *)
Example TOOL_MAPPINGS_names_distinct :
  NoDup (keys TOOL_MAPPINGS) /\
  map fst (sorted (items TOOL_MAPPINGS)) =
  ["add_jewel"; "add_source"; "create_entanglement"; "create_qupt";
   "create_zoku"; "delete_entanglement"; "delete_jewel"; "disentangle";
   "entangle"; "get_attributes"; "get_child_entanglements"; "get_entangled";
   "get_entanglement"; "get_jewel"; "get_jewel_usage"; "get_matrix";
   "list_entanglements"; "list_jewels"; "list_qupts"; "list_sources";
   "list_zoku"; "move_entanglement"; "remove_source"; "sync_source";
   "toggle_source"; "update_entanglement"; "update_jewel"].
Proof. split; [apply dict_display_NoDup | vm_compute; reflexivity]. Qed.

(** * Further properties of the script *)

(** ** Joining and the rendered text *)

Section MoreStringFacts.

Lemma append_inv_head (a x y : string) : a ++ x = a ++ y -> x = y.
Proof. induction a as [|c a IH]; simpl; [auto | intros [= H]; auto]. Qed.

Lemma append_inv_tail (a x y : string) : x ++ a = y ++ a -> x = y.
Proof.
  revert y; induction x as [|c x IH]; intros [|d y] H; simpl in H.
  - reflexivity.
  - apply (f_equal String.length) in H. simpl in H.
    rewrite length_append in H. lia.
  - apply (f_equal String.length) in H. simpl in H.
    rewrite length_append in H. lia.
  - injection H as -> H. f_equal. now apply IH.
Qed.

(** Counting one character is additive over concatenation. *)
Lemma occurrences_char_app (c : ascii) (s1 s2 : string) :
  occurrences (String c EmptyString) (s1 ++ s2) =
  occurrences (String c EmptyString) s1 + occurrences (String c EmptyString) s2.
Proof.
  induction s1 as [|d s1 IH].
  - simpl. reflexivity.
  - cbn [append occurrences]. rewrite IH.
    cbn [prefix]. destruct (ascii_dec c d); [|lia].
    destruct s1, s2; simpl; lia.
Qed.

Lemma occurrences_char_empty (c : ascii) :
  occurrences (String c EmptyString) EmptyString = 0.
Proof. reflexivity. Qed.

(** The text up to the first occurrence of a character is determined. *)
Lemma split_at_first_char (c : ascii) (s1 s2 r1 r2 : string) :
  contains (String c EmptyString) s1 = false ->
  contains (String c EmptyString) s2 = false ->
  s1 ++ String c r1 = s2 ++ String c r2 -> s1 = s2 /\ r1 = r2.
Proof.
  revert s2; induction s1 as [|d s1 IH]; intros [|e s2] H1 H2 H;
    cbn [append] in H.
  - injection H as ->. now split.
  - injection H as <- _. cbn in H2.
    destruct (ascii_dec c c); [|congruence].
    now destruct s2.
  - injection H as -> _. cbn in H1.
    destruct (ascii_dec c c); [|congruence].
    now destruct s1.
  - injection H as -> H.
    cbn [contains] in H1, H2. apply orb_false_iff in H1 as [_ H1].
    apply orb_false_iff in H2 as [_ H2].
    destruct (IH s2 H1 H2 H) as [-> ->]. now split.
Qed.

Lemma join_cons (sep x : string) (rest : list string) :
  join sep (x :: rest) =
  x ++ fold_right (fun y r => sep ++ y ++ r) EmptyString rest.
Proof. unfold join. apply join_from_spec. Qed.

Lemma separated_app (sep : string) (l1 l2 : list string) :
  fold_right (fun y r => sep ++ y ++ r) EmptyString (l1 ++ l2) =
  fold_right (fun y r => sep ++ y ++ r) EmptyString l1 ++
  fold_right (fun y r => sep ++ y ++ r) EmptyString l2.
Proof.
  induction l1 as [|x l1 IH]; simpl; [reflexivity|].
  now rewrite IH, !append_assoc.
Qed.

End MoreStringFacts.

(** X1. Joining a list cut into two non-empty parts is joining the parts
    and putting one separator between them. *)
Theorem join_app (sep : string) (l1 l2 : list string) :
  l1 <> [] -> l2 <> [] ->
  join sep (l1 ++ l2) = join sep l1 ++ sep ++ join sep l2.
Proof.
  destruct l1 as [|x l1]; [congruence|].
  destruct l2 as [|y l2]; [congruence|]. intros _ _.
  change ((x :: l1) ++ y :: l2)%list with (x :: (l1 ++ y :: l2))%list.
  rewrite !join_cons, separated_app. cbn [fold_right].
  now rewrite !append_assoc.
Qed.

Lemma join_app_witness :
  join ", " (["args.id"] ++ ["args.confirm"; "args.force"]) =
  join ", " ["args.id"] ++ ", " ++ join ", " ["args.confirm"; "args.force"].
Proof. apply join_app; discriminate. Defined.

(** X2. The renderer neither quotes nor escapes an argument expression:
    one expression that contains the separator renders exactly as the two
    expressions it is made of. *)
Theorem separator_inside_argument
    (t s m x y : string) (a1 a2 : list string) (st : state) :
  generate_tool_impl t s m (a1 ++ (x ++ ", " ++ y) :: a2) st =
  generate_tool_impl t s m (a1 ++ x :: y :: a2) st.
Proof.
  assert (E : join ", " (a1 ++ (x ++ ", " ++ y) :: a2) =
              join ", " (a1 ++ x :: y :: a2)).
  { destruct a1 as [|z a1].
    - cbn [app]. rewrite !join_cons. cbn [fold_right].
      now rewrite !append_assoc.
    - change ((z :: a1) ++ (x ++ ", " ++ y)%string :: a2)%list
        with (z :: (a1 ++ (x ++ ", " ++ y)%string :: a2))%list.
      change ((z :: a1) ++ x :: y :: a2)%list
        with (z :: (a1 ++ x :: y :: a2))%list.
      rewrite !join_cons, !separated_app. cbn [fold_right].
      now rewrite !append_assoc. }
  unfold generate_tool_impl. now rewrite E.
Qed.

Section BlockDecoding.

(** Strips the text both sides of [H] start with. *)
Ltac strip_common H :=
  cbn [append] in H; try (injection H as H);
  repeat (apply append_inv_head in H; cbn [append] in H;
          try (injection H as H)).

Lemma block_determines_rest
    (t1 s1 m1 t2 s2 m2 : string) (a1 a2 : list string) (st1 st2 : state) :
  contains "'" t1 = false -> contains "'" t2 = false ->
  eval (generate_tool_impl t1 s1 m1 a1) st1 =
  eval (generate_tool_impl t2 s2 m2 a2) st2 ->
  t1 = t2 /\
  s1 ++ "." ++ m1 ++ "(" ++ join ", " a1 =
  s2 ++ "." ++ m2 ++ "(" ++ join ", " a2.
Proof.
  intros Ht1 Ht2 H.
  unfold eval, generate_tool_impl, ret in H; cbn [fst] in H.
  unfold nl in H. cbn [append] in H. injection H as H.
  apply (split_at_first_char "'"%char) in H as [-> H]; trivial.
  split; [reflexivity|].
  strip_common H.
  match type of H with
  | _ ++ String _ (_ ++ String _ (_ ++ ?tail)) = _ =>
      apply (append_inv_tail tail)
  end.
  rewrite !append_assoc. cbn [append]. exact H.
Qed.

End BlockDecoding.

(** X3. A block can be read back: when the tool name holds no quote, the
    service name no dot and the method name no opening parenthesis, equal
    blocks come from the same tool, service and method and from the same
    joined argument text. *)
Theorem block_determines_entry
    (t1 s1 m1 t2 s2 m2 : string) (a1 a2 : list string) (st1 st2 : state) :
  contains "'" t1 = false -> contains "'" t2 = false ->
  contains "." s1 = false -> contains "." s2 = false ->
  contains "(" m1 = false -> contains "(" m2 = false ->
  eval (generate_tool_impl t1 s1 m1 a1) st1 =
  eval (generate_tool_impl t2 s2 m2 a2) st2 ->
  t1 = t2 /\ s1 = s2 /\ m1 = m2 /\ join ", " a1 = join ", " a2.
Proof.
  intros Ht1 Ht2 Hs1 Hs2 Hm1 Hm2 H.
  destruct (block_determines_rest _ _ _ _ _ _ _ _ _ _ Ht1 Ht2 H) as [-> H'].
  cbn [append] in H'.
  apply (split_at_first_char "."%char) in H' as [-> H']; trivial.
  apply (split_at_first_char "("%char) in H' as [-> H']; trivial.
  now repeat split.
Qed.

Lemma block_determines_entry_witness :
  "toggle_source" = "toggle_source" /\ "sources" = "sources" /\
  "update" = "update" /\
  join ", " ["args.source_id, { enabled: args.enabled }"] =
  join ", " ["args.source_id"; "{ enabled: args.enabled }"].
Proof.
  apply (block_determines_entry
           "toggle_source" "sources" "update"
           "toggle_source" "sources" "update"
           ["args.source_id, { enabled: args.enabled }"]
           ["args.source_id"; "{ enabled: args.enabled }"]
           initial_state initial_state); reflexivity.
Defined.

(** X4. The template adds to the strings it is given 13 line breaks, five
    opening and five closing parentheses and three opening and three
    closing braces: every character occurs in a block as often as in the
    empty template and in the strings written into it, the tool name
    counted four times. *)
Theorem block_character_counts
    (c : ascii) (t s m : string) (a : list string) (st : state) :
  occurrences (String c EmptyString) (eval (generate_tool_impl t s m a) st) =
  occurrences (String c EmptyString)
    (eval (generate_tool_impl EmptyString EmptyString EmptyString []) st) +
  4 * occurrences (String c EmptyString) t +
  occurrences (String c EmptyString) s +
  occurrences (String c EmptyString) m +
  occurrences (String c EmptyString) (join ", " a) /\
  occurrences nl
    (eval (generate_tool_impl EmptyString EmptyString EmptyString []) st) = 13 /\
  occurrences "("
    (eval (generate_tool_impl EmptyString EmptyString EmptyString []) st) = 5 /\
  occurrences ")"
    (eval (generate_tool_impl EmptyString EmptyString EmptyString []) st) = 5 /\
  occurrences "{"
    (eval (generate_tool_impl EmptyString EmptyString EmptyString []) st) = 3 /\
  occurrences "}"
    (eval (generate_tool_impl EmptyString EmptyString EmptyString []) st) = 3.
Proof.
  split; [|repeat split; vm_compute; reflexivity].
  unfold eval, generate_tool_impl, ret; cbn [fst join].
  rewrite !occurrences_char_app, !occurrences_char_empty. lia.
Qed.

(** ** The table as declared *)

Section Declaration.

Lemma dict_setitem_fresh (k : string) (v : mapping) (d : dict) :
  ~ In k (keys d) -> dict_setitem k v d = (d ++ [(k, v)])%list.
Proof.
  induction d as [|[k0 v0] d IH]; simpl; intros Hk; [reflexivity|].
  destruct (String.eqb_spec k0 k) as [->|Hne]; [tauto|].
  rewrite IH; tauto.
Qed.

Lemma dict_display_from_distinct (entries : list item) (d : dict) :
  NoDup (map fst (d ++ entries)) ->
  fold_left (fun d e => dict_setitem (fst e) (snd e) d) entries d =
  (d ++ entries)%list.
Proof.
  revert d; induction entries as [|[k v] entries IH]; intros d Hnd; simpl.
  - now rewrite app_nil_r.
  - assert (Hk : ~ In k (keys d)).
    { rewrite map_app in Hnd. simpl in Hnd.
      apply NoDup_remove_2 in Hnd. rewrite in_app_iff in Hnd.
      unfold keys. tauto. }
    rewrite (dict_setitem_fresh _ _ _ Hk), IH; rewrite <- app_assoc; trivial.
Qed.

End Declaration.

(** X5. A table declared with pairwise distinct tool names holds exactly
    the declared pairs, in the order of the declaration. *)
Theorem distinct_declaration_kept (lit : list item) :
  NoDup (map fst lit) -> items (dict_display lit) = lit.
Proof.
  intros Hnd. unfold items, dict_display.
  now rewrite dict_display_from_distinct.
Qed.

Lemma distinct_declaration_kept_witness :
  items (dict_display
           [("list_zoku", ("zoku", "list", ["args"]));
            ("create_zoku", ("zoku", "create", ["args"]))]) =
  [("list_zoku", ("zoku", "list", ["args"]));
   ("create_zoku", ("zoku", "create", ["args"]))].
Proof.
  apply distinct_declaration_kept.
  simpl. repeat constructor; simpl; intuition discriminate.
Defined.

(** X6. The table never holds more entries than pairs were declared, and
    it holds as many exactly when the declared tool names are pairwise
    distinct: a repeated name makes the count the run reports fall short
    of the number of declared pairs. *)
Theorem declared_pairs_and_count (lit : list item) :
  len (dict_display lit) <= List.length lit /\
  (len (dict_display lit) = List.length lit <-> NoDup (map fst lit)).
Proof.
  assert (Hlen : len (dict_display lit) = List.length (keys (dict_display lit)))
    by (unfold len, keys; now rewrite length_map).
  assert (Hincl : incl (keys (dict_display lit)) (map fst lit))
    by (intros k; apply dict_display_keys).
  assert (Hincl' : incl (map fst lit) (keys (dict_display lit)))
    by (intros k; apply dict_display_keys).
  pose proof (dict_display_NoDup lit) as Hnd.
  split.
  - rewrite Hlen.
    replace (List.length lit) with (List.length (map fst lit))
      by apply length_map.
    now apply NoDup_incl_length.
  - split.
    + intros E. eapply NoDup_incl_NoDup; [exact Hnd | | exact Hincl].
      rewrite length_map, <- Hlen, E. apply le_n.
    + intros Hlit. unfold len, dict_display.
      now rewrite dict_display_from_distinct.
Qed.

(** ** The tuple order and [sorted] on arbitrary pairs *)

Section Lexicographic.

Variable B : Type.
Variable ltB : B -> B -> bool.

(** One level of a lexicographic comparison headed by a string. *)
Local Abbreviation lex x b y b' :=
  (if String.eqb x y then ltB b b' else str_lt x y).

Lemma lex_asym (x y : string) (b1 b2 : B) :
  (ltB b1 b2 = true -> ltB b2 b1 = false) ->
  lex x b1 y b2 = true -> lex y b2 x b1 = false.
Proof.
  intros HB.
  destruct (String.eqb_spec x y) as [->|Hne].
  - rewrite String.eqb_refl. exact HB.
  - destruct (String.eqb_spec y x) as [E|_]; [congruence|].
    apply str_lt_asym.
Qed.

Lemma lex_trans (x y z : string) (b1 b2 b3 : B) :
  (ltB b1 b2 = true -> ltB b2 b3 = true -> ltB b1 b3 = true) ->
  lex x b1 y b2 = true -> lex y b2 z b3 = true -> lex x b1 z b3 = true.
Proof.
  intros HB.
  destruct (String.eqb_spec x y) as [->|Hxy].
  - destruct (String.eqb_spec y z) as [->|Hyz]; auto.
  - destruct (String.eqb_spec y z) as [->|Hyz].
    + destruct (String.eqb_spec x z) as [E|_]; [congruence | auto].
    + intros H1 H2. destruct (String.eqb_spec x z) as [->|_].
      * apply str_lt_asym in H1. congruence.
      * eapply str_lt_trans; eauto.
Qed.

End Lexicographic.

Section TupleOrder.

Lemma list_lt_asym (l1 l2 : list string) :
  list_lt l1 l2 = true -> list_lt l2 l1 = false.
Proof.
  revert l2; induction l1 as [|x l1 IH]; intros [|y l2]; simpl; try congruence.
  apply lex_asym, IH.
Qed.

Lemma list_lt_trans (l1 l2 l3 : list string) :
  list_lt l1 l2 = true -> list_lt l2 l3 = true -> list_lt l1 l3 = true.
Proof.
  revert l2 l3; induction l1 as [|x l1 IH]; intros [|y l2] [|z l3]; simpl;
    try congruence.
  apply lex_trans, IH.
Qed.

Lemma mapping_lt_asym (v1 v2 : mapping) :
  mapping_lt v1 v2 = true -> mapping_lt v2 v1 = false.
Proof.
  destruct v1 as [[s1 m1] a1], v2 as [[s2 m2] a2]. unfold mapping_lt.
  apply (lex_asym _
           (fun p q => if String.eqb (fst p) (fst q)
                       then list_lt (snd p) (snd q)
                       else str_lt (fst p) (fst q))
           s1 s2 (m1, a1) (m2, a2)).
  cbn [fst snd]. apply lex_asym, list_lt_asym.
Qed.

Lemma mapping_lt_trans (v1 v2 v3 : mapping) :
  mapping_lt v1 v2 = true -> mapping_lt v2 v3 = true ->
  mapping_lt v1 v3 = true.
Proof.
  destruct v1 as [[s1 m1] a1], v2 as [[s2 m2] a2], v3 as [[s3 m3] a3].
  unfold mapping_lt.
  apply (lex_trans _
           (fun p q => if String.eqb (fst p) (fst q)
                       then list_lt (snd p) (snd q)
                       else str_lt (fst p) (fst q))
           s1 s2 s3 (m1, a1) (m2, a2) (m3, a3)).
  cbn [fst snd]. apply lex_trans, list_lt_trans.
Qed.

Lemma item_lt_asym (e1 e2 : item) :
  item_lt e1 e2 = true -> item_lt e2 e1 = false.
Proof. unfold item_lt. apply lex_asym, mapping_lt_asym. Qed.

Lemma item_lt_trans (e1 e2 e3 : item) :
  item_lt e1 e2 = true -> item_lt e2 e3 = true -> item_lt e1 e3 = true.
Proof. unfold item_lt. apply lex_trans, mapping_lt_trans. Qed.

Lemma insort_sorted (x : item) (l : list item) :
  StronglySorted item_le l -> StronglySorted item_le (insort x l).
Proof.
  induction l as [|y l IH]; intros Hs; simpl.
  - repeat constructor.
  - apply StronglySorted_inv in Hs as [Hs Hy].
    destruct (item_lt x y) eqn:Hxy.
    + constructor; [now constructor|].
      constructor; [now apply item_lt_asym|].
      eapply Forall_impl; [|exact Hy].
      intros z Hyz. unfold item_le in *.
      destruct (item_lt z x) eqn:Hzx; [|reflexivity].
      rewrite (item_lt_trans _ _ _ Hzx Hxy) in Hyz. discriminate.
    + constructor; [now apply IH|].
      rewrite (insort_perm x l). now constructor.
Qed.

Lemma sorted_from_sorted (l acc : list item) :
  StronglySorted item_le acc ->
  StronglySorted item_le (fold_left (fun a x => insort x a) l acc).
Proof.
  revert acc; induction l as [|x l IH]; intros acc Hs; simpl; [exact Hs|].
  now apply IH, insort_sorted.
Qed.

Lemma insort_last (x : item) (l : list item) :
  Forall (fun a => item_le a x) l -> insort x l = (l ++ [x])%list.
Proof.
  induction 1 as [|y l Hy _ IH]; simpl; [reflexivity|].
  unfold item_le in Hy. now rewrite Hy, IH.
Qed.

Lemma sorted_app_middle (l1 l2 : list item) (x : item) :
  StronglySorted item_le (l1 ++ x :: l2) ->
  Forall (fun a => item_le a x) l1.
Proof.
  induction l1 as [|a l1 IH]; simpl; intros Hs; [constructor|].
  apply StronglySorted_inv in Hs as [Hs Ha].
  constructor; [|now apply IH].
  rewrite Forall_forall in Ha. apply Ha, in_elt.
Qed.

Lemma sorted_from_ascending (l acc : list item) :
  StronglySorted item_le (acc ++ l) ->
  fold_left (fun a x => insort x a) l acc = (acc ++ l)%list.
Proof.
  revert acc; induction l as [|x l IH]; intros acc Hs; simpl.
  - now rewrite app_nil_r.
  - rewrite (insort_last x acc (sorted_app_middle _ _ _ Hs)).
    rewrite IH; rewrite <- app_assoc; trivial.
Qed.

End TupleOrder.

(** X7. For every list of pairs, names repeated or not, [sorted] returns
    the same pairs arranged so that no pair is followed by a smaller one
    in Python's order on tuples (name first, then service, method and
    argument list). *)
Theorem sorted_ascending_permutation (l : list item) :
  Permutation (sorted l) l /\ StronglySorted item_le (sorted l).
Proof.
  split; [apply sorted_perm|].
  apply sorted_from_sorted. constructor.
Qed.

(** X8. [sorted] leaves an ascending list as it is, so sorting twice is
    sorting once. *)
Theorem sorted_idempotent (l : list item) :
  (StronglySorted item_le l -> sorted l = l) /\
  sorted (sorted l) = sorted l.
Proof.
  split.
  - intros Hs. unfold sorted. now rewrite sorted_from_ascending.
  - unfold sorted at 1. rewrite sorted_from_ascending; [reflexivity|].
    simpl. apply sorted_from_sorted. constructor.
Qed.

Lemma sorted_idempotent_witness :
  sorted [("add_jewel", ("jewels", "create", ["args"]));
          ("add_source", ("sources", "create",
                          ["args.entanglement_id"; "args"]))] =
  [("add_jewel", ("jewels", "create", ["args"]));
   ("add_source", ("sources", "create", ["args.entanglement_id"; "args"]))].
Proof.
  apply (proj1 (sorted_idempotent _)).
  repeat constructor.
Defined.

(** ** The order of the blocks *)

Section BlockOrder.

(** A strictly ascending arrangement is unique among its permutations,
    for any asymmetric relation. *)
Lemma ascending_perm_eq {A : Type} (R : A -> A -> Prop) (l1 l2 : list A) :
  (forall x y, R x y -> R y x -> False) ->
  StronglySorted R l1 -> StronglySorted R l2 -> Permutation l1 l2 -> l1 = l2.
Proof.
  intros Hasym. revert l2; induction l1 as [|x l1 IH]; intros l2 H1 H2 Hp.
  - now apply Permutation_nil in Hp.
  - destruct l2 as [|y l2].
    + symmetry in Hp. now apply Permutation_nil in Hp.
    + apply StronglySorted_inv in H1 as [H1 Hx].
      apply StronglySorted_inv in H2 as [H2 Hy].
      assert (Exy : x = y).
      { assert (Hin1 : In x (y :: l2))
          by (eapply Permutation_in; [exact Hp | now left]).
        assert (Hin2 : In y (x :: l1))
          by (eapply Permutation_in; [symmetry; exact Hp | now left]).
        destruct Hin1 as [E|Hin1]; [now symmetry|].
        destruct Hin2 as [E|Hin2]; [exact E|].
        rewrite Forall_forall in Hx, Hy.
        destruct (Hasym x y); auto. }
      subst y. f_equal. apply IH; trivial.
      eapply Permutation_cons_inv; exact Hp.
Qed.

Lemma names_ascending (l : list item) :
  StronglySorted name_lt l ->
  StronglySorted (fun a b => str_lt a b = true) (map fst l).
Proof.
  induction 1 as [|x l Hs IH Hx]; simpl; constructor; trivial.
  rewrite Forall_forall in *. intros k Hk.
  apply in_map_iff in Hk as [e [<- He]]. now apply Hx.
Qed.

Lemma str_lt_prefix (s r : string) (c : ascii) :
  str_lt s (s ++ String c r) = true.
Proof.
  unfold str_lt, String.ltb.
  induction s as [|d s IH]; simpl; [reflexivity|].
  now rewrite ascii_compare_refl.
Qed.

Lemma rendered_name (e1 e2 : item) :
  contains "'" (fst e1) = false -> contains "'" (fst e2) = false ->
  rendered e1 = rendered e2 -> fst e1 = fst e2.
Proof.
  destruct e1 as [t1 [[s1 m1] a1]], e2 as [t2 [[s2 m2] a2]].
  intros H1 H2 H.
  now destruct (block_determines_rest _ _ _ _ _ _ _ _
                  initial_state initial_state H1 H2 H).
Qed.

Lemma rendered_NoDup (l : list item) :
  Forall (fun e => contains "'" (fst e) = false) l ->
  NoDup (map fst l) -> NoDup (map rendered l).
Proof.
  induction l as [|e l IH]; simpl; intros Hq Hnd; [constructor|].
  apply Forall_cons_iff in Hq as [Hq Hql].
  apply NoDup_cons_iff in Hnd as [Hk Hnd].
  constructor; [|now apply IH].
  intros Hin. apply in_map_iff in Hin as [e' [He' Hin]].
  apply Hk. rewrite Forall_forall in Hql.
  rewrite <- (rendered_name e' e (Hql _ Hin) Hq He').
  now apply in_map.
Qed.

End BlockOrder.

(** X9. The order in which the tool names come out depends on the names
    alone: two tables with the same pairwise distinct names, whatever
    their mappings and whatever the order of declaration, yield the same
    sequence of names. *)
Theorem block_order_depends_on_names (l1 l2 : list item) :
  NoDup (map fst l1) -> Permutation (map fst l1) (map fst l2) ->
  map fst (sorted l1) = map fst (sorted l2).
Proof.
  intros Hnd Hp.
  assert (Hnd2 : NoDup (map fst l2)) by (eapply Permutation_NoDup; eauto).
  apply (ascending_perm_eq (fun a b => str_lt a b = true)).
  - intros x y Hxy Hyx. apply str_lt_asym in Hxy. congruence.
  - now apply names_ascending, sorted_strongly_sorted.
  - now apply names_ascending, sorted_strongly_sorted.
  - rewrite (Permutation_map fst (sorted_perm l1)), Hp.
    symmetry. apply Permutation_map, sorted_perm.
Qed.

Lemma block_order_depends_on_names_witness :
  map fst (sorted [("list_zoku", ("zoku", "list", ["args"]));
                   ("add_jewel", ("jewels", "create", ["args"]))]) =
  map fst (sorted [("add_jewel", ("sources", "sync", []));
                   ("list_zoku", ("qupts", "get", ["args.id"]))]).
Proof.
  apply block_order_depends_on_names.
  - simpl. repeat constructor; simpl; intuition discriminate.
  - apply perm_swap.
Defined.

(** X10. A tool whose name is the beginning of another tool's name comes
    first, whatever the two mappings are. *)
Theorem prefix_name_first (name rest : string) (c : ascii) (v v' : mapping) :
  item_lt (name, v) (name ++ String c rest, v') = true /\
  sorted [(name ++ String c rest, v'); (name, v)] =
  [(name, v); (name ++ String c rest, v')].
Proof.
  assert (Hne : name <> name ++ String c rest).
  { intros E. apply (f_equal String.length) in E.
    rewrite length_append in E. simpl in E. lia. }
  assert (Hlt : item_lt (name, v) (name ++ String c rest, v') = true).
  { rewrite item_lt_names; [apply str_lt_prefix | exact Hne]. }
  split; [exact Hlt|].
  unfold sorted. simpl. now rewrite Hlt.
Qed.

(** X11. When no declared tool name holds a quote, the blocks of one run
    are pairwise different texts: no registration is written twice. *)
Theorem blocks_pairwise_different (lit : list item) :
  Forall (fun e => contains "'" (fst e) = false) lit ->
  NoDup (map rendered (sorted (items (dict_display lit)))).
Proof.
  intros Hq. apply rendered_NoDup.
  - rewrite Forall_forall in *. intros e He.
    assert (Hk : In (fst e) (map fst lit)).
    { apply dict_display_keys. unfold keys.
      apply in_map. eapply Permutation_in; [apply sorted_perm | exact He]. }
    apply in_map_iff in Hk as [e' [E He']].
    rewrite <- E. now apply Hq.
  - eapply Permutation_NoDup; [|apply (dict_display_NoDup lit)].
    symmetry. apply Permutation_map, sorted_perm.
Qed.

Lemma blocks_pairwise_different_witness :
  NoDup (map rendered (sorted (items (dict_display
    [("sync_source", ("sources", "sync", ["args.source_id"]));
     ("sync_source", ("sources", "sync", ["args.source_id"]));
     ("get_matrix", ("entanglements", "getMatrix",
                     ["args.entanglement_id"]))])))).
Proof.
  apply blocks_pairwise_different.
  repeat constructor.
Defined.

(** ** The size of a run's output *)

Section OutputSize.

Lemma occurrences_nl_app (s1 s2 : string) :
  occurrences nl (s1 ++ s2) = occurrences nl s1 + occurrences nl s2.
Proof. apply occurrences_char_app. Qed.

Lemma rendered_newlines (e : item) :
  occurrences nl (rendered e) = 13 + entry_newlines e.
Proof.
  destruct e as [t [[s m] a]].
  unfold rendered, entry_newlines, eval, generate_tool_impl, ret; cbn [fst].
  rewrite !occurrences_nl_app.
  change (occurrences nl nl) with 1.
  repeat match goal with
         | |- context [occurrences nl (String ?c ?r)] =>
             let n := eval vm_compute in (occurrences nl (String c r)) in
             change (occurrences nl (String c r)) with n
         end.
  lia.
Qed.

Lemma digits_newlines (u : Decimal.uint) :
  occurrences nl (NilEmpty.string_of_uint u) = 0.
Proof. induction u; simpl; auto. Qed.

Lemma flat_newlines (l : list string) :
  occurrences nl (fold_right append EmptyString l) =
  list_sum (map (occurrences nl) l).
Proof.
  unfold list_sum.
  induction l as [|s l IH]; cbn [map fold_right]; [reflexivity|].
  now rewrite occurrences_nl_app, IH.
Qed.

Lemma blocks_newlines (l : list item) :
  list_sum (map (occurrences nl) (map (fun e => rendered e ++ nl) l)) =
  14 * List.length l + list_sum (map entry_newlines l).
Proof.
  induction l as [|e l IH]; [reflexivity|].
  unfold list_sum in *. cbn [map fold_right List.length].
  rewrite IH, occurrences_nl_app.
  rewrite rendered_newlines. change (occurrences nl nl) with 1. lia.
Qed.

Lemma list_sum_perm (f : item -> nat) (l1 l2 : list item) :
  Permutation l1 l2 -> list_sum (map f l1) = list_sum (map f l2).
Proof. unfold list_sum. induction 1; simpl; lia. Qed.

End OutputSize.

(** X12. A run adds to standard output four line breaks for header and
    trailer and fourteen for each entry of the table, plus the line
    breaks that the strings of the table themselves hold. *)
Theorem output_line_breaks (d : dict) (out : list string) :
  occurrences nl (stdout_text (exec main (mkState d out))) =
  occurrences nl (stdout_text (mkState d out)) +
  4 + 14 * len d + list_sum (map entry_newlines (items d)).
Proof.
  unfold stdout_text. rewrite main_stdout. cbn [stdout].
  rewrite !flat_newlines, !map_app, !list_sum_app, blocks_newlines.
  rewrite sorted_length, (list_sum_perm _ _ _ (sorted_perm (items d))).
  cbn [map list_sum]. unfold trailer_line, str_of_int.
  rewrite !occurrences_nl_app, digits_newlines.
  change (occurrences nl nl) with 1.
  change (occurrences nl header_line) with 0.
  change (occurrences nl "// Total tools migrated: ") with 0.
  unfold len, items, list_sum. cbn [fold_right]. lia.
Qed.

(** X13. With an empty table a run writes no block: the output is the
    header line, three line breaks in a row and the count line with 0. *)
Theorem empty_table_output (out : list string) :
  stdout_text (exec main (mkState (dict_display []) out)) =
  stdout_text (mkState (dict_display []) out) ++
  "// Generated MCP tool registrations using services" ++ nl ++ nl ++ nl ++
  "// Total tools migrated: 0" ++ nl.
Proof.
  unfold stdout_text. rewrite main_stdout. cbn [stdout].
  rewrite flatten_app. reflexivity.
Qed.

(** X14. Executing the file assigns the declared table whatever was
    bound before. Imported under another module name it writes nothing;
    run as a script it writes what [main] writes for the declared table,
    after whatever standard output already held. *)
Theorem module_body_guard (name : string) (st : state) :
  g_TOOL_MAPPINGS (exec (module_body name) st) = TOOL_MAPPINGS /\
  (name <> "__main__" -> stdout (exec (module_body name) st) = stdout st) /\
  stdout (exec (module_body "__main__") st) =
  (stdout st ++ stdout (exec main initial_state))%list.
Proof.
  unfold module_body, exec, bind, store_TOOL_MAPPINGS.
  split; [|split].
  - destruct (String.eqb name "__main__"); [|reflexivity].
    rewrite main_run. reflexivity.
  - intros Hne. destruct (String.eqb_spec name "__main__"); [congruence|].
    reflexivity.
  - cbn [String.eqb Ascii.eqb Bool.eqb]. rewrite !main_run. reflexivity.
Qed.

Lemma module_body_guard_witness :
  stdout (exec (module_body "migrate_mcp_to_services") initial_state) =
  stdout initial_state.
Proof.
  apply (proj1 (proj2 (module_body_guard "migrate_mcp_to_services"
                         initial_state))).
  discriminate.
Defined.

(** ** The layout of the output *)

Section Layout.

Lemma main_text (d : dict) (out : list string) :
  stdout_text (exec main (mkState d out)) =
  stdout_text (mkState d out) ++
  header_line ++ nl ++ nl ++
  fold_right append EmptyString
    (map (fun e => rendered e ++ nl) (sorted (items d))) ++
  nl ++ trailer_line (len d) ++ nl.
Proof.
  unfold stdout_text. rewrite main_stdout. cbn [stdout].
  rewrite !flatten_app. cbn [fold_right].
  now rewrite !append_nil_r, !append_assoc.
Qed.

Lemma ends_with_newline_nonempty (a b : string) :
  a ++ nl ++ b ++ nl <> EmptyString.
Proof.
  intros E. apply (f_equal String.length) in E.
  rewrite !length_append in E. simpl in E. lia.
Qed.

End Layout.

(** The output of a run does not have the layout the specification words,
    whichever single lines are taken for header and count and whichever
    entries for the blocks: after the header line comes a blank line, not
    a block and not the count. The table here has one entry. *)
Lemma claimed_layout_misses_blank_lines :
  ~ exists (h t : string) (es : list item),
      contains nl h = false /\ contains nl t = false /\
      stdout_text (exec main (mkState
        (dict_display [("list_zoku", ("zoku", "list", ["args"]))]) [])) =
      layout_as_claimed h (map rendered es) t.
Proof.
  intros (h & t & es & Hh & Ht & E).
  rewrite main_text in E. unfold layout_as_claimed, stdout_text in E.
  cbn [stdout fold_right] in E. unfold nl in E, Hh, Ht.
  cbn [append] in E.
  apply (split_at_first_char "010"%char) in E as [_ E];
    [| vm_compute; reflexivity | exact Hh].
  destruct es as [|e es].
  - cbn [map fold_right append] in E.
    apply (split_at_first_char "010"%char EmptyString) in E as [_ E];
      [| reflexivity | exact Ht].
    now apply (ends_with_newline_nonempty _ _ E).
  - destruct (rendered_shape e) as [body Hb].
    cbn [map fold_right] in E. rewrite Hb in E.
    cbn [append] in E. discriminate.
Qed.

(** C9, as the code has it. The bytes of a run are, in this order: the
    header line and a blank line; one block for every entry of the table,
    in ascending order, each followed by a blank line; one more blank
    line and the line with the number of entries. Header and count line
    are single lines, and a block opens with the registration call and
    ends with its closing line. *)
Theorem output_structure (d : dict) (out : list string) :
  exists (es : list item) (count : string),
    Permutation es d /\
    StronglySorted item_le es /\
    stdout_text (exec main (mkState d out)) =
      stdout_text (mkState d out) ++
      "// Generated MCP tool registrations using services" ++ nl ++
      nl ++
      fold_right append EmptyString (map (fun e => rendered e ++ nl) es) ++
      nl ++
      "// Total tools migrated: " ++ count ++ nl /\
    contains nl "// Generated MCP tool registrations using services" = false /\
    contains nl ("// Total tools migrated: " ++ count) = false /\
    int_of_str count = Some (List.length d) /\
    (forall e,
        (exists body,
            rendered e =
            "  server.registerTool(" ++ nl ++ body ++ "  );" ++ nl) /\
        Occurs ("server.registerTool(" ++ nl ++ "    '" ++ fst e ++ "',")
               (rendered e)).
Proof.
  exists (sorted (items d)), (str_of_int (len d)).
  split; [apply sorted_perm|].
  split; [apply sorted_from_sorted; constructor|].
  split; [rewrite main_text; unfold header_line, trailer_line;
          now rewrite !append_assoc|].
  split; [vm_compute; reflexivity|].
  split; [unfold str_of_int; simpl; apply digits_single_line|].
  split; [apply str_of_int_roundtrip|].
  intros e. split; [apply rendered_shape | apply rendered_tool_literal].
Qed.
